(** * kubernetes-ec2-autoscaler: the command-line entry point (main.py)

    A shallow embedding of [main.py]: the multimap option parser
    [MultimapParamType.convert], the verbosity table [DEBUG_LOGGING_MAP],
    the credential check at startup and the reconciliation loop with its
    doubling backoff.

    Python values are modelled as follows.
    - [str] is [string]; [str.split] with a one-character separator is [split].
    - a [dict] from keys to [set]s of strings is [gmap string (gset string)].
    - Python integers are unbounded, so they are [Z] without wrap-around.
    - an optional string ([None] or a [str]) is [option string].
    - the calls main makes to its collaborators (the logger, [sys.exit],
      [Notifier], [Cluster], [cluster.scale_loop], [time.sleep]) are recorded
      as a trace of [event]s; the booleans returned by [cluster.scale_loop]
      are the input of the loop. *)

From stdpp Require Import gmap strings list fin_maps.
From Stdlib Require Import Ascii ZArith Lia.

(** ** Strings *)

Module Str.

(** [count_char c s]: the number of occurrences of [c] in [s]
    (Python's [s.count(c)]). *)
Fixpoint count_char (c : ascii) (s : string) : nat :=
  match s with
  | EmptyString => 0
  | String a s' => (if decide (a = c) then 1 else 0) + count_char c s'
  end.

(** [split sep s]: Python's [s.split(sep)] for a separator of one
    character. The result has one more element than [s] has separators; in
    particular [''.split(',')] is [['']]. *)
Fixpoint split (sep : ascii) (s : string) : list string :=
  match s with
  | EmptyString => [EmptyString]
  | String a s' =>
      if decide (a = sep) then EmptyString :: split sep s'
      else match split sep s' with
           | [] => [String a EmptyString]
           | w :: ws => String a w :: ws
           end
  end.

End Str.

(** ** Results of a click conversion *)

(** A conversion either returns a value or raises [click.BadParameter]
    through [self.fail(message, param, ctx)]; the exception carries the
    message and the parameter it was raised for. *)
Inductive outcome (A : Type) : Type :=
| Ok (a : A)
| BadParameter (message : string) (param : string).
Arguments Ok {A} a.
Arguments BadParameter {A} message param.

Definition succeeds {A} (r : outcome A) : bool :=
  match r with Ok _ => true | BadParameter _ _ => false end.

(** ** MultimapParamType *)

Module MultimapParamType.

Definition name : string := "dict".

(** The body of the [try] for an entry that unpacked into a key and a value:
    [[
      if entry_key not in result:
          result[entry_key] = set()
      result[entry_key].add(entry_value)
    ]] *)
Definition add_entry (entry_key entry_value : string)
    (result : gmap string (gset string)) : gmap string (gset string) :=
  let result1 :=
    match result !! entry_key with
    | None => <[entry_key := ∅]> result
    | Some _ => result
    end in
  alter (λ values, values ∪ {[entry_value]}) entry_key result1.

(** The [for entry in entry_list] loop. Unpacking
    [entry_key, entry_value = entry.split('=')] raises [ValueError] unless the
    split has exactly two parts; the handler calls [self.fail] with the whole
    [value] in the message, which leaves the loop. *)
Fixpoint convert_loop (value param : string) (entry_list : list string)
    (result : gmap string (gset string)) : outcome (gmap string (gset string)) :=
  match entry_list with
  | [] => Ok result
  | entry :: entry_list' =>
      match Str.split "=" entry with
      | [entry_key; entry_value] =>
          convert_loop value param entry_list'
            (add_entry entry_key entry_value result)
      | _ => BadParameter (value +:+ " is not a key=value pair") param
      end
  end.

(** [convert(self, value, param, ctx)]. *)
Definition convert (value param : string)
    : outcome (gmap string (gset string)) :=
  let result := ∅ in
  if decide (value = "") then Ok result
  else convert_loop value param (Str.split "," value) result.

End MultimapParamType.


(** ** The click options of main *)

(** A click parameter type is an object with a [name] and a [convert]
    method; an option declaration refers to one such object. *)
Record ParamType (A : Type) : Type := {
  pt_name : string;
  pt_convert : string → string → outcome A
}.
Arguments pt_name {A} _.
Arguments pt_convert {A} _ _ _.

(** [MULTIMAP_PARAM = MultimapParamType()]: the one instance both multimap
    options are declared with. *)
Definition MULTIMAP_PARAM : ParamType (gmap string (gset string)) :=
  {| pt_name := MultimapParamType.name;
     pt_convert := MultimapParamType.convert |}.

Record ClickOption (A : Type) : Type := {
  opt_flag : string;
  opt_default : string;
  opt_type : ParamType A
}.
Arguments opt_flag {A} _.
Arguments opt_default {A} _.
Arguments opt_type {A} _.

(** [@click.option('--drainable-labels', default='', type=MULTIMAP_PARAM)] *)
Definition drainable_labels_option : ClickOption (gmap string (gset string)) :=
  {| opt_flag := "--drainable-labels";
     opt_default := "";
     opt_type := MULTIMAP_PARAM |}.

(** [@click.option('--instance-type-priorities', default='',
    type=MULTIMAP_PARAM)] *)
Definition instance_type_priorities_option
    : ClickOption (gmap string (gset string)) :=
  {| opt_flag := "--instance-type-priorities";
     opt_default := "";
     opt_type := MULTIMAP_PARAM |}.

(** click hands the text given for an option to the [convert] method of the
    option's type, together with the option itself. *)
Definition parse_option {A} (o : ClickOption A) (value : string) : outcome A :=
  pt_convert (opt_type o) value (opt_flag o).

Definition parse_drainable_labels : string → outcome (gmap string (gset string)) :=
  parse_option drainable_labels_option.

Definition parse_instance_type_priorities
    : string → outcome (gmap string (gset string)) :=
  parse_option instance_type_priorities_option.

(** ** Verbosity and logging levels *)

(** The numeric levels of Python's [logging] module. *)
Module logging.
Definition CRITICAL : Z := 50.
Definition ERROR : Z := 40.
Definition WARNING : Z := 30.
Definition INFO : Z := 20.
Definition DEBUG : Z := 10.

(** [Logger.isEnabledFor]: a logger set to [logger_level] handles a record
    of severity [level] when [level] is at least [logger_level]. *)
Definition isEnabledFor (logger_level level : Z) : bool :=
  (logger_level <=? level)%Z.
End logging.

Definition DEBUG_LOGGING_MAP : gmap Z Z :=
  {[ 0%Z := logging.CRITICAL;
     1%Z := logging.WARNING;
     2%Z := logging.INFO;
     3%Z := logging.DEBUG ]}.

(** [click.IntRange(min, max, clamp=True)]: a value below [min] becomes
    [min], a value above [max] becomes [max]. *)
Definition IntRange_clamp (min max value : Z) : Z :=
  if (value <? min)%Z then min
  else if (max <? value)%Z then max
  else value.

(** The [--verbose] option: the number of [-v] flags through
    [IntRange(0, 3, clamp=True)]. *)
Definition verbose_option (count : Z) : Z := IntRange_clamp 0 3 count.

(** [DEBUG_LOGGING_MAP.get(verbose, logging.CRITICAL)] *)
Definition logger_level (verbose : Z) : Z :=
  default logging.CRITICAL (DEBUG_LOGGING_MAP !! verbose).

(** The level main configures for a command line with [count] [-v] flags. *)
Definition configured_level (count : Z) : Z :=
  logger_level (verbose_option count).

(** ** main *)

(** The arguments click passes to [main]. *)
Record Args : Type := {
  cluster_name : option string;
  regions : string;
  sleep : Z;
  kubeconfig : option string;
  pod_namespace : option string;
  aws_access_key : option string;
  aws_secret_key : option string;
  datadog_api_key : option string;
  idle_threshold : Z;
  type_idle_threshold : Z;
  over_provision : Z;
  instance_init_time : Z;
  no_scale : bool;
  no_maintenance : bool;
  slack_hook : option string;
  slack_bot_token : option string;
  dry_run : bool;
  verbose : Z;
  drainable_labels : gmap string (gset string);
  scale_label : option string;
  instance_type_priorities : gmap string (gset string)
}.

(** Python truth value of an optional string: [None] and [''] are false. *)
Definition truthy (o : option string) : bool :=
  match o with
  | None => false
  | Some s => if decide (s = "") then false else true
  end.

Inductive log_message : Type :=
| MissingAWSCredentials
| BackoffIs (backoff : Z).

(** What main does to the outside, in order. *)
Inductive event : Type :=
| AddStderrHandler
| SetLevel (level : Z)
| Log (level : Z) (message : log_message)
| SysExit (code : Z)
| NotifierCreated
| ClusterCreated
| ScaleLoop (scaled : bool)
| Sleep (seconds : Z).

(** Where control is once main has consumed the results given to it:
    still in the [while True] loop with the current [backoff], or out of the
    process with an exit status. *)
Inductive control : Type :=
| Looping (backoff : Z)
| Exited (code : Z).

(** One pass of the body of [while True], for the result [scaled] of
    [cluster.scale_loop()]. *)
Definition loop_body (sleep : Z) (scaled : bool) (backoff : Z)
    : list event * Z :=
  if scaled then
    ([ScaleLoop true; Sleep sleep], sleep)
  else
    let backoff' := (backoff * 2)%Z in
    ([ScaleLoop false; Log logging.WARNING (BackoffIs backoff); Sleep backoff'],
     backoff').

(** The loop over the results of the successive calls of
    [cluster.scale_loop()]. *)
Fixpoint while_true (sleep : Z) (results : list bool) (backoff : Z)
    : list event * Z :=
  match results with
  | [] => ([], backoff)
  | scaled :: results' =>
      let '(events, backoff1) := loop_body sleep scaled backoff in
      let '(events', backoff2) := while_true sleep results' backoff1 in
      (events ++ events', backoff2)
  end.

(** [backoff = sleep] followed by the loop (lines 121-130). *)
Definition control_loop (sleep : Z) (results : list bool) : list event * Z :=
  let backoff := sleep in
  while_true sleep results backoff.

Definition main (args : Args) (results : list bool) : list event * control :=
  let setup :=
    [AddStderrHandler; SetLevel (logger_level (verbose args))] in
  if negb (truthy (aws_secret_key args) && truthy (aws_access_key args)) then
    (setup ++ [Log logging.ERROR MissingAWSCredentials; SysExit 1], Exited 1)
  else
    let '(events, backoff) := control_loop (sleep args) results in
    (setup ++ [NotifierCreated; ClusterCreated] ++ events, Looping backoff).

(** ** Observations on traces *)

Definition sleep_of (e : event) : option Z :=
  match e with Sleep seconds => Some seconds | _ => None end.

(** The durations of the [time.sleep] calls of a trace, in order. *)
Definition sleeps (trace : list event) : list Z := omap sleep_of trace.

Definition is_scale_loop (e : event) : bool :=
  match e with ScaleLoop _ => true | _ => false end.

(** The number of [cluster.scale_loop()] calls of a trace. *)
Definition scale_loop_calls (trace : list event) : nat :=
  length (filter (λ e, is_scale_loop e = true) trace).


(** ** Vocabulary of the statements *)

(** [holds m k v]: the multimap [m] pairs the key [k] with the value [v]. *)
Definition holds (m : gmap string (gset string)) (k v : string) : Prop :=
  ∃ vs, m !! k = Some vs ∧ v ∈ vs.

(** An entry as the text [key=value]. *)
Definition key_value (k v : string) : string := k +:+ "=" +:+ v.

(** An entry that the loop of [convert] accepts: free of commas, with exactly
    one equals sign. *)
Definition well_formed_entry (e : string) : Prop :=
  Str.count_char "," e = 0 ∧ Str.count_char "=" e = 1.


Definition present (o : option string) : Prop := ∃ s, o = Some s ∧ s ≠ "".

(** The four levels of [DEBUG_LOGGING_MAP]. *)
Definition verbosity_levels : list Z :=
  [logging.CRITICAL; logging.WARNING; logging.INFO; logging.DEBUG].

(** [no_empty_set m]: every key of the multimap has at least one value. *)
Definition no_empty_set (m : gmap string (gset string)) : Prop :=
  ∀ k vs, m !! k = Some vs → vs ≠ ∅.

(** The multimap that pairs a key with the values of both [m1] and [m2]. *)
Definition merge (m1 m2 : gmap string (gset string))
    : gmap string (gset string) :=
  union_with (λ vs1 vs2, Some (vs1 ∪ vs2)) m1 m2.

(** ** The Cluster main constructs *)

(** The keyword arguments of the [Cluster(...)] call of main (lines
    102-120), with the spelling the call uses; [notifier] is the
    [Notifier(slack_hook, slack_bot_token)] built on the line before. *)
Record ClusterKwargs : Type := {
  kw_aws_access_key : option string;
  kw_aws_secret_key : option string;
  kw_regions : list string;
  kw_kubeconfig : option string;
  kw_pod_namespace : option string;
  kw_idle_threshold : Z;
  kw_instance_init_time : Z;
  kw_type_idle_threshold : Z;
  kw_cluster_name : option string;
  kw_scale_up : bool;
  kw_maintainance : bool;
  kw_over_provision : Z;
  kw_datadog_api_key : option string;
  kw_notifier : option string * option string;
  kw_dry_run : bool;
  kw_drainable_labels : gmap string (gset string);
  kw_scale_label : option string;
  kw_instance_type_priorities : gmap string (gset string)
}.

Definition cluster_kwargs (args : Args) : ClusterKwargs :=
  {| kw_aws_access_key := aws_access_key args;
     kw_aws_secret_key := aws_secret_key args;
     kw_regions := Str.split "," (regions args);
     kw_kubeconfig := kubeconfig args;
     kw_pod_namespace := pod_namespace args;
     kw_idle_threshold := idle_threshold args;
     kw_instance_init_time := instance_init_time args;
     kw_type_idle_threshold := type_idle_threshold args;
     kw_cluster_name := cluster_name args;
     kw_scale_up := negb (no_scale args);
     kw_maintainance := negb (no_maintenance args);
     kw_over_provision := over_provision args;
     kw_datadog_api_key := datadog_api_key args;
     kw_notifier := (slack_hook args, slack_bot_token args);
     kw_dry_run := dry_run args;
     kw_drainable_labels := drainable_labels args;
     kw_scale_label := scale_label args;
     kw_instance_type_priorities := instance_type_priorities args |}.

(** ** More observations on traces *)

(** The number of results equal to false at the end of [results]; [streak]
    is the number already counted before [results]. *)
Fixpoint idle_streak (results : list bool) (streak : nat) : nat :=
  match results with
  | [] => streak
  | true :: results' => idle_streak results' 0
  | false :: results' => idle_streak results' (S streak)
  end.

Definition is_backoff_warning (e : event) : bool :=
  match e with Log _ (BackoffIs _) => true | _ => false end.

(** The number of [backoff: ...] warnings of a trace. *)
Definition backoff_warnings (trace : list event) : nat :=
  length (filter (λ e, is_backoff_warning e = true) trace).

(** The number of calls of [cluster.scale_loop()] that returned false. *)
Definition unchanged_cycles (results : list bool) : nat :=
  length (filter (λ scaled, scaled = false) results).

(** The time a trace spends in [time.sleep]. *)
Definition total_sleep (trace : list event) : Z :=
  foldr Z.add 0%Z (sleeps trace).

(** * Properties *)

(** ** Splitting and joining strings *)

Section Split.
Variable sep : ascii.

Lemma count_char_app (s t : string) :
  Str.count_char sep (s +:+ t) = Str.count_char sep s + Str.count_char sep t.
Proof.
  induction s as [|a s IH]; simpl; [done|].
  rewrite IH. lia.
Qed.

Lemma split_not_nil (s : string) : Str.split sep s ≠ [].
Proof.
  induction s as [|a s IH]; simpl; [done|].
  case_decide; [done|]. by destruct (Str.split sep s).
Qed.

Lemma length_split (s : string) :
  length (Str.split sep s) = S (Str.count_char sep s).
Proof.
  induction s as [|a s IH]; simpl; [done|].
  case_decide; simpl; [by rewrite IH|].
  destruct (Str.split sep s) as [|w ws] eqn:E; simpl in *; lia.
Qed.

Lemma split_no_sep (s : string) :
  Str.count_char sep s = 0 → Str.split sep s = [s].
Proof.
  induction s as [|a s IH]; simpl; [done|].
  case_decide; [lia|]. intros H0. by rewrite IH.
Qed.

Lemma split_app_sep (e s : string) :
  Str.count_char sep e = 0 →
  Str.split sep (e +:+ String sep s) = e :: Str.split sep s.
Proof.
  induction e as [|a e IH]; simpl.
  - intros _. by rewrite decide_True.
  - case_decide; [lia|]. intros H0. by rewrite IH.
Qed.

(** Splitting undoes joining with the separator, for parts free of it. *)
Lemma split_concat (l : list string) :
  l ≠ [] →
  Forall (λ e, Str.count_char sep e = 0) l →
  Str.split sep (String.concat (String sep "") l) = l.
Proof.
  induction l as [|e l IH]; [done|]. intros _ Hl.
  apply Forall_cons in Hl as [He Hl].
  destruct l as [|e' l].
  - by apply split_no_sep.
  - change (String.concat (String sep "") (e :: e' :: l))
      with (e +:+ String sep (String.concat (String sep "") (e' :: l))).
    rewrite split_app_sep by done. f_equal. by apply IH.
Qed.

(** A string with exactly one separator splits into the text before it and
    the text after it. *)
Lemma split_key_value (k v : string) :
  Str.count_char sep (k +:+ String sep v) = 1 →
  Str.split sep (k +:+ String sep v) = [k; v].
Proof.
  rewrite count_char_app. simpl. rewrite decide_True by done. intros H1.
  rewrite split_app_sep by lia. f_equal. apply split_no_sep. lia.
Qed.

Lemma split_exactly_one (s : string) :
  Str.count_char sep s = 1 →
  ∃ k v, s = k +:+ String sep v ∧ Str.split sep s = [k; v].
Proof.
  induction s as [|a s IH]; simpl; [done|].
  case_decide as Ha.
  - intros H1. subst a. exists "", s. split; [done|].
    f_equal. apply split_no_sep. lia.
  - intros H1. destruct (IH H1) as (k & v & -> & Hs).
    exists (String a k), v. split; [done|]. by rewrite Hs.
Qed.
End Split.

(** ** The multimap built by [convert] *)

Section Multimap.
Import MultimapParamType.

Lemma lookup_add_entry k v (result : gmap string (gset string)) k' :
  add_entry k v result !! k'
  = if decide (k = k') then Some (default ∅ (result !! k) ∪ {[v]})
    else result !! k'.
Proof.
  unfold add_entry. case_decide as Hk.
  - subst k'. destruct (result !! k) as [vs|] eqn:E.
    + by rewrite lookup_alter_eq, E.
    + by rewrite lookup_alter_eq, lookup_insert_eq.
  - rewrite lookup_alter_ne by done.
    destruct (result !! k); [done|]. by rewrite lookup_insert_ne.
Qed.

Lemma is_Some_add_entry k v (result : gmap string (gset string)) k' :
  is_Some (add_entry k v result !! k') ↔ is_Some (result !! k') ∨ k' = k.
Proof.
  rewrite lookup_add_entry. case_decide as Hk.
  - subst. split; [by right | by eauto].
  - split; [by left | intros [?|?]; [done | congruence]].
Qed.

Lemma holds_add_entry k v (result : gmap string (gset string)) k' v' :
  holds (add_entry k v result) k' v' ↔ holds result k' v' ∨ (k' = k ∧ v' = v).
Proof.
  unfold holds. rewrite lookup_add_entry. case_decide as Hk.
  - subst k'. split.
    + intros (vs & [= <-] & Hv). apply elem_of_union in Hv as [Hv|Hv].
      * left. destruct (result !! k) as [ws|]; [by eauto | set_solver].
      * right. set_solver.
    + intros [(vs & Hr & Hv) | [_ ->]]; eexists; (split; [done|]).
      * rewrite Hr. set_solver.
      * set_solver.
  - split; [by left | intros [?|[? _]]; [done | congruence]].
Qed.

(** In an entry with one equals sign the key and the value are determined. *)
Lemma key_value_inj k v k' v' :
  Str.count_char "=" (key_value k v) = 1 →
  key_value k' v' = key_value k v → k' = k ∧ v' = v.
Proof.
  intros H1 Heq.
  assert (Str.split "=" (key_value k v) = [k; v]) as Hs
    by exact (split_key_value "=" k v H1).
  assert (Str.split "=" (key_value k' v') = [k'; v']) as Hs'.
  { apply (split_key_value "=" k' v'). by rewrite <- H1, <- Heq. }
  rewrite Heq, Hs in Hs'. by injection Hs'.
Qed.

(** The loop over well-formed entries returns, and extends the map it
    started from with exactly the pairs of the entries. *)
Lemma convert_loop_ok value param entries :
  Forall (λ e, Str.count_char "=" e = 1) entries →
  ∀ result, ∃ m,
    convert_loop value param entries result = Ok m
    ∧ (∀ k, is_Some (m !! k)
            ↔ is_Some (result !! k) ∨ ∃ v, key_value k v ∈ entries)
    ∧ (∀ k v, holds m k v ↔ holds result k v ∨ key_value k v ∈ entries).
Proof.
  induction 1 as [|e entries He Hes IH]; intros result.
  - exists result. split; [done|]. split.
    + intros k. split; [by left|].
      intros [?|[v Hv]]; [done|]. by apply elem_of_nil in Hv.
    + intros k v. split; [by left|].
      intros [?|Hv]; [done|]. by apply elem_of_nil in Hv.
  - destruct (split_exactly_one "=" e He) as (k0 & v0 & -> & Hs).
    change (k0 +:+ String "="%char v0) with (key_value k0 v0) in *.
    simpl. rewrite Hs.
    destruct (IH (add_entry k0 v0 result)) as (m & -> & Hdom & Hval).
    exists m. split; [done|]. split.
    + intros k. rewrite Hdom, is_Some_add_entry. split.
      * intros [[? | ->] | [v Hv]]; [by left | |].
        -- right. exists v0. apply elem_of_cons. by left.
        -- right. exists v. apply elem_of_cons. by right.
      * intros [?|[v Hv]]; [by left; left|].
        apply elem_of_cons in Hv as [Hv|Hv]; [|right; by exists v].
        apply key_value_inj in Hv as [-> _]; [|done]. left. by right.
    + intros k v. rewrite Hval, holds_add_entry. split.
      * intros [[? | [-> ->]] | ?]; [by left | |];
          right; apply elem_of_cons; [by left | by right].
      * intros [?|Hv]; [by left; left|].
        apply elem_of_cons in Hv as [Hv|Hv]; [|by right].
        apply key_value_inj in Hv as [-> ->]; [|done]. left. by right.
Qed.

(** The loop stops with [BadParameter] as soon as it has an entry that does
    not split into exactly two parts. *)
Lemma convert_loop_fails value param entries :
  Exists (λ e, Str.count_char "=" e ≠ 1) entries →
  ∀ result,
    convert_loop value param entries result
    = BadParameter (value +:+ " is not a key=value pair") param.
Proof.
  induction 1 as [e entries He | e entries _ IH]; intros result; simpl.
  - pose proof (length_split "=" e) as Hlen.
    destruct (Str.split "=" e) as [|a [|b [|c l]]]; simpl in *; try done.
    lia.
  - by destruct (Str.split "=" e) as [|a [|b [|c l]]].
Qed.

(** Whether the loop returns, and the map it returns, do not depend on
    the parameter [convert] is called for. *)
Lemma convert_loop_param value p p' entries :
  ∀ result,
    convert_loop value p entries result
    = match convert_loop value p' entries result with
      | Ok m => Ok m
      | BadParameter message _ => BadParameter message p
      end.
Proof.
  induction entries as [|e entries IH]; intros result; simpl; [done|].
  by destruct (Str.split "=" e) as [|a [|b [|c l]]].
Qed.

Lemma convert_param value p p' :
  convert value p
  = match convert value p' with
    | Ok m => Ok m
    | BadParameter message _ => BadParameter message p
    end.
Proof.
  unfold convert. case_decide; [done|]. apply convert_loop_param.
Qed.

(** [convert] on the join of well-formed entries. *)
Lemma convert_concat param entries :
  Forall well_formed_entry entries →
  ∃ m,
    convert (String.concat "," entries) param = Ok m
    ∧ (∀ k, is_Some (m !! k) ↔ ∃ v, key_value k v ∈ entries)
    ∧ (∀ k v, holds m k v ↔ key_value k v ∈ entries).
Proof.
  intros Hwf. unfold convert. case_decide as Hv.
  - exists ∅. split; [done|].
    destruct entries as [|e entries].
    + split; [intros k | intros k v].
      * split; [by intros [? ?] | intros [? Hin]; by apply elem_of_nil in Hin].
      * split; [by intros (? & ? & ?) | intros Hin; by apply elem_of_nil in Hin].
    + exfalso. apply Forall_cons in Hwf as [[_ He] _].
      destruct entries as [|e' entries]; simpl in Hv.
      * by subst e.
      * destruct e; [done | discriminate].
  - destruct (decide (entries = [])) as [->|Hne]; [done|].
    rewrite split_concat; [|done|by eapply Forall_impl; [done|intros ? []]].
    destruct (convert_loop_ok (String.concat "," entries) param entries)
      with (result := (∅ : gmap string (gset string)))
      as (m & Hm & Hdom & Hval).
    { by eapply Forall_impl; [done|intros ? []]. }
    exists m. split; [done|]. split.
    + intros k. rewrite Hdom, lookup_empty. split; [|by right].
      intros [[? ?]|?]; done.
    + intros k v. rewrite Hval. split; [|by right].
      intros [(? & ? & ?)|?]; [|done]. by rewrite lookup_empty in *.
Qed.
End Multimap.

(** ** Claims about [MultimapParamType.convert] *)

(** C4. For an input made of comma-separated entries that each contain
    exactly one equals sign, [convert] returns a map whose keys are exactly
    the keys that occur in the input, each mapped to exactly the set of the
    values paired with it anywhere in the input. *)
Theorem convert_multimap (param : string) (entries : list string) :
  Forall well_formed_entry entries →
  ∃ m,
    MultimapParamType.convert (String.concat "," entries) param = Ok m
    ∧ (∀ k, is_Some (m !! k) ↔ ∃ v, key_value k v ∈ entries)
    ∧ (∀ k vs, m !! k = Some vs → ∀ v, v ∈ vs ↔ key_value k v ∈ entries).
Proof.
  intros Hwf.
  destruct (convert_concat param entries Hwf) as (m & Hm & Hdom & Hval).
  exists m. split; [done|]. split; [done|].
  intros k vs Hk v. rewrite <- Hval. unfold holds. split.
  - intros Hv. by exists vs.
  - intros (ws & Hw & Hv). by simplify_eq.
Qed.

Lemma convert_multimap_witness :
  Forall well_formed_entry ["a=1"; "b=2"; "a=3"]
  ∧ ∃ m,
      MultimapParamType.convert (String.concat "," ["a=1"; "b=2"; "a=3"]) "p"
      = Ok m
      ∧ (∀ k, is_Some (m !! k) ↔ ∃ v, key_value k v ∈ ["a=1"; "b=2"; "a=3"])
      ∧ (∀ k vs, m !! k = Some vs →
           ∀ v, v ∈ vs ↔ key_value k v ∈ ["a=1"; "b=2"; "a=3"]).
Proof.
  assert (Forall well_formed_entry ["a=1"; "b=2"; "a=3"]) as H
    by (repeat constructor).
  split; [exact H|]. exact (convert_multimap "p" _ H).
Defined.

(** C5. A non-empty input with at least one comma-separated entry that
    does not contain exactly one equals sign is rejected: [convert] raises
    through [self.fail] instead of returning a map. *)
Theorem convert_rejects_malformed (param : string) (entries : list string) :
  Forall (λ e, Str.count_char "," e = 0) entries →
  Exists (λ e, Str.count_char "=" e ≠ 1) entries →
  String.concat "," entries ≠ "" →
  MultimapParamType.convert (String.concat "," entries) param
  = BadParameter
      (String.concat "," entries +:+ " is not a key=value pair") param.
Proof.
  intros Hcomma Hbad Hne. unfold MultimapParamType.convert.
  rewrite decide_False by done.
  rewrite split_concat; [|by destruct Hbad|done].
  by apply convert_loop_fails.
Qed.

Lemma convert_rejects_malformed_witness :
  Forall (λ e, Str.count_char "," e = 0) ["a=1"; "b"; "c=2=3"]
  ∧ Exists (λ e, Str.count_char "=" e ≠ 1) ["a=1"; "b"; "c=2=3"]
  ∧ String.concat "," ["a=1"; "b"; "c=2=3"] ≠ ""
  ∧ MultimapParamType.convert (String.concat "," ["a=1"; "b"; "c=2=3"]) "p"
    = BadParameter
        (String.concat "," ["a=1"; "b"; "c=2=3"] +:+ " is not a key=value pair")
        "p".
Proof.
  assert (Forall (λ e, Str.count_char "," e = 0) ["a=1"; "b"; "c=2=3"]) as H1
    by (repeat constructor).
  assert (Exists (λ e, Str.count_char "=" e ≠ 1) ["a=1"; "b"; "c=2=3"]) as H2
    by (apply Exists_cons_tl, Exists_cons_hd; simpl; lia).
  assert (String.concat "," ["a=1"; "b"; "c=2=3"] ≠ "") as H3
    by (intros Heq; vm_compute in Heq; discriminate Heq).
  split; [exact H1|]. split; [exact H2|]. split; [exact H3|].
  exact (convert_rejects_malformed "p" _ H1 H2 H3).
Defined.

(** C8. On the empty string, the default of both multimap options,
    [convert] returns the empty map and does not fail. *)
Theorem convert_empty_string (param : string) :
  MultimapParamType.convert "" param = Ok ∅
  ∧ parse_drainable_labels (opt_default drainable_labels_option) = Ok ∅
  ∧ parse_instance_type_priorities
      (opt_default instance_type_priorities_option) = Ok ∅.
Proof. done. Qed.

(** C9. Entries with an empty value or an empty key are accepted: an
    entry [k=] puts the empty string into the set of [k], and an entry [=v]
    puts [v] into the set of the empty key. *)
Theorem convert_accepts_empty_key_or_value
    (param : string) (entries : list string) (k v : string) :
  Forall well_formed_entry entries →
  (key_value k "" ∈ entries →
   ∃ m vs, MultimapParamType.convert (String.concat "," entries) param = Ok m
           ∧ m !! k = Some vs ∧ "" ∈ vs)
  ∧ (key_value "" v ∈ entries →
     ∃ m vs, MultimapParamType.convert (String.concat "," entries) param = Ok m
             ∧ m !! "" = Some vs ∧ v ∈ vs).
Proof.
  intros Hwf.
  destruct (convert_concat param entries Hwf) as (m & Hm & _ & Hval).
  split; intros Hin; apply Hval in Hin as (vs & Hk & Hv); by exists m, vs.
Qed.

Lemma convert_accepts_empty_key_or_value_witness :
  Forall well_formed_entry ["k="; "=v"]
  ∧ (key_value "k" "" ∈ ["k="; "=v"] →
     ∃ m vs, MultimapParamType.convert (String.concat "," ["k="; "=v"]) "p" = Ok m
             ∧ m !! "k" = Some vs ∧ "" ∈ vs)
  ∧ (key_value "" "v" ∈ ["k="; "=v"] →
     ∃ m vs, MultimapParamType.convert (String.concat "," ["k="; "=v"]) "p" = Ok m
             ∧ m !! "" = Some vs ∧ "v" ∈ vs).
Proof.
  assert (Forall well_formed_entry ["k="; "=v"]) as H by (repeat constructor).
  split; [exact H|]. exact (convert_accepts_empty_key_or_value "p" _ "k" "v" H).
Defined.

(** C6. Both multimap options are declared with the one [MULTIMAP_PARAM]
    instance: on every input, parsing it as [--drainable-labels] and as
    [--instance-type-priorities] either both fail or both return the same
    map. *)
Theorem multimap_options_parse_alike (value : string) :
  opt_type drainable_labels_option = opt_type instance_type_priorities_option
  ∧ succeeds (parse_drainable_labels value)
    = succeeds (parse_instance_type_priorities value)
  ∧ (∀ m, parse_drainable_labels value = Ok m
          ↔ parse_instance_type_priorities value = Ok m).
Proof.
  split; [done|].
  unfold parse_drainable_labels, parse_instance_type_priorities, parse_option.
  simpl.
  rewrite (convert_param value "--drainable-labels"
             "--instance-type-priorities").
  destruct (MultimapParamType.convert value "--instance-type-priorities").
  all: split; [done|]; intros m; split; congruence.
Qed.

(** ** Verbosity *)

Lemma verbose_option_range (count : Z) : (0 ≤ verbose_option count ≤ 3)%Z.
Proof.
  unfold verbose_option, IntRange_clamp.
  destruct (Z.ltb_spec count 0); [lia|].
  destruct (Z.ltb_spec 3 count); lia.
Qed.

Lemma verbose_option_mono (count1 count2 : Z) :
  (count1 ≤ count2)%Z → (verbose_option count1 ≤ verbose_option count2)%Z.
Proof.
  unfold verbose_option, IntRange_clamp. intros Hle.
  destruct (Z.ltb_spec count1 0), (Z.ltb_spec count2 0),
    (Z.ltb_spec 3 count1), (Z.ltb_spec 3 count2); lia.
Qed.

(** The table, entry by entry. *)
Lemma logger_level_cases (verbose : Z) :
  (0 ≤ verbose ≤ 3)%Z →
  (verbose = 0 ∧ logger_level verbose = logging.CRITICAL)%Z
  ∨ (verbose = 1 ∧ logger_level verbose = logging.WARNING)%Z
  ∨ (verbose = 2 ∧ logger_level verbose = logging.INFO)%Z
  ∨ (verbose = 3 ∧ logger_level verbose = logging.DEBUG)%Z.
Proof.
  intros Hv.
  assert (verbose = 0 ∨ verbose = 1 ∨ verbose = 2 ∨ verbose = 3)%Z
    as [ -> | [ -> | [ -> | -> ] ] ] by lia; vm_compute; tauto.
Qed.

(** Outside the table [get] falls back to [logging.CRITICAL]. *)
Lemma logger_level_default (verbose : Z) :
  (verbose < 0 ∨ 3 < verbose)%Z → logger_level verbose = logging.CRITICAL.
Proof.
  intros Hv. unfold logger_level, DEBUG_LOGGING_MAP.
  rewrite !lookup_insert_ne, lookup_singleton_ne by lia. done.
Qed.

(** C7. The verbosity count is clamped into 0..3, the level configured
    for it is one of CRITICAL, WARNING, INFO and DEBUG, and a larger count
    never selects a numerically larger (less verbose) level. *)
Theorem configured_level_monotone (count1 count2 : Z) :
  (count1 ≤ count2)%Z →
  (0 ≤ verbose_option count1 ≤ 3)%Z
  ∧ (verbose_option count1 ≤ verbose_option count2)%Z
  ∧ logger_level (verbose_option count1) ∈ verbosity_levels
  ∧ (logger_level (verbose_option count2)
     ≤ logger_level (verbose_option count1))%Z.
Proof.
  intros Hle.
  pose proof (verbose_option_range count1) as H1.
  pose proof (verbose_option_range count2) as H2.
  pose proof (verbose_option_mono count1 count2 Hle) as H12.
  split; [done|]. split; [done|].
  pose proof (logger_level_cases _ H1) as C1.
  pose proof (logger_level_cases _ H2) as C2.
  split.
  - unfold verbosity_levels. rewrite !elem_of_cons.
    destruct C1 as [ [_ ->] | [ [_ ->] | [ [_ ->] | [_ ->] ] ] ]; tauto.
  - unfold logging.CRITICAL, logging.WARNING, logging.INFO, logging.DEBUG in *.
    lia.
Qed.

Lemma configured_level_monotone_witness :
  (1 ≤ 5)%Z
  ∧ (0 ≤ verbose_option 1 ≤ 3)%Z
  ∧ (verbose_option 1 ≤ verbose_option 5)%Z
  ∧ logger_level (verbose_option 1) ∈ verbosity_levels
  ∧ (logger_level (verbose_option 5) ≤ logger_level (verbose_option 1))%Z.
Proof.
  assert (1 ≤ 5)%Z as H by lia.
  split; [exact H|]. exact (configured_level_monotone 1 5 H).
Defined.

(** ** The reconciliation loop *)

Section Loop.
Variable sleep : Z.

Lemma while_true_app (results1 results2 : list bool) (backoff : Z) :
  while_true sleep (results1 ++ results2) backoff
  = ((while_true sleep results1 backoff).1
       ++ (while_true sleep results2 (while_true sleep results1 backoff).2).1,
     (while_true sleep results2 (while_true sleep results1 backoff).2).2).
Proof.
  revert backoff. induction results1 as [|scaled results1 IH]; intros backoff.
  - simpl. by destruct (while_true sleep results2 backoff).
  - simpl. destruct (loop_body sleep scaled backoff) as [events backoff1].
    rewrite IH.
    destruct (while_true sleep results1 backoff1) as [events1 backoff2].
    simpl. by rewrite app_assoc.
Qed.

(** A pass whose call returned true. *)
Lemma while_true_scaled (backoff : Z) :
  while_true sleep [true] backoff = ([ScaleLoop true; Sleep sleep], sleep).
Proof. done. Qed.

(** [N] passes in a row whose calls returned false multiply the backoff by
    [2 ^ N], and the last of them sleeps the backoff it leaves. *)
Lemma while_true_idle (N : nat) (backoff : Z) :
  (while_true sleep (replicate N false) backoff).2
  = (backoff * 2 ^ Z.of_nat N)%Z
  ∧ last (sleeps (while_true sleep (replicate (S N) false) backoff).1)
    = Some (backoff * 2 ^ Z.of_nat (S N))%Z.
Proof.
  revert backoff. induction N as [|N IH]; intros backoff.
  - split; simpl; f_equal; lia.
  - destruct (IH (backoff * 2)%Z) as [IH1 IH2].
    assert (backoff * 2 * 2 ^ Z.of_nat N = backoff * 2 ^ Z.of_nat (S N))%Z
      as E1 by (rewrite Nat2Z.inj_succ, Z.pow_succ_r; lia).
    assert (backoff * 2 * 2 ^ Z.of_nat (S N)
            = backoff * 2 ^ Z.of_nat (S (S N)))%Z
      as E2 by (rewrite (Nat2Z.inj_succ (S N)), Z.pow_succ_r; lia).
    split.
    + rewrite <- E1, <- IH1. simpl.
      by destruct (while_true sleep (replicate N false) (backoff * 2)).
    + rewrite <- E2, <- IH2.
      change (replicate (S (S N)) false) with (false :: replicate (S N) false).
      cbn [while_true loop_body].
      destruct (while_true sleep (replicate (S N) false) (backoff * 2))
        as [events backoff'] eqn:E.
      unfold sleeps in *. simpl in IH2 |- *.
      change (list_omap event Z sleep_of events)
        with (omap sleep_of events) in *.
      destruct (omap sleep_of events); [discriminate IH2 | done].
Qed.

Lemma scale_loop_calls_app (trace1 trace2 : list event) :
  scale_loop_calls (trace1 ++ trace2)
  = scale_loop_calls trace1 + scale_loop_calls trace2.
Proof. unfold scale_loop_calls. by rewrite filter_app, length_app. Qed.

(** Every result given to the loop is consumed by one call of
    [cluster.scale_loop()]. *)
Lemma scale_loop_calls_while_true (results : list bool) (backoff : Z) :
  scale_loop_calls (while_true sleep results backoff).1 = length results.
Proof.
  revert backoff. induction results as [|scaled results IH]; intros backoff.
  - done.
  - simpl. specialize (IH (loop_body sleep scaled backoff).2).
    destruct (loop_body sleep scaled backoff) as [events backoff1] eqn:E.
    simpl in IH.
    destruct (while_true sleep results backoff1) as [events' backoff2].
    simpl in *. rewrite scale_loop_calls_app, IH.
    unfold loop_body in E. by destruct scaled; simplify_eq.
Qed.

End Loop.


(** ** Claims about the backoff *)

(** C1, as the code has it. The loop doubles the backoff before it
    sleeps: after the [N]th consecutive call of [cluster.scale_loop()] that
    returned false, counted from the last call that returned true or from the
    start of the loop, it sleeps [sleep * 2 ^ N]. The idle sleeps therefore
    start at twice the base interval. *)
Theorem idle_sleep_after_n_unchanged_cycles
    (sleep : Z) (history : list bool) (N : nat) :
  last (sleeps (control_loop sleep (replicate (S N) false)).1)
  = Some (sleep * 2 ^ Z.of_nat (S N))%Z
  ∧ last (sleeps
            (control_loop sleep (history ++ true :: replicate (S N) false)).1)
    = Some (sleep * 2 ^ Z.of_nat (S N))%Z.
Proof.
  unfold control_loop. split.
  - apply while_true_idle.
  - change (true :: replicate (S N) false)
      with ([true] ++ replicate (S N) false).
    rewrite app_assoc, while_true_app. cbn [fst snd].
    rewrite (while_true_app sleep history [true]). cbn [fst snd].
    rewrite while_true_scaled. cbn [fst snd].
    unfold sleeps. rewrite omap_app.
    destruct (while_true_idle sleep N sleep) as [_ Hlast].
    unfold sleeps in Hlast. by rewrite last_app, Hlast.
Qed.

(** C1, as stated, fails on the first idle pass: with a base interval of 60
    the sleep after one call that returned false is 120, not [60 * 2 ^ (1 - 1)]. *)
Lemma first_idle_sleep_is_not_the_base_interval :
  last (sleeps (control_loop 60 (replicate 1 false)).1) = Some 120%Z
  ∧ last (sleeps (control_loop 60 (replicate 1 false)).1)
    ≠ Some (60 * 2 ^ (1 - 1))%Z.
Proof. split; [reflexivity|]. vm_compute. discriminate. Qed.

(** C2. A pass whose call of [cluster.scale_loop()] returned true sleeps
    exactly the base interval and leaves the backoff at the base interval,
    whatever the results before it were. *)
Theorem scaled_cycle_resets_backoff
    (sleep backoff : Z) (history : list bool) :
  while_true sleep (history ++ [true]) backoff
  = ((while_true sleep history backoff).1 ++ [ScaleLoop true; Sleep sleep],
     sleep)
  ∧ (control_loop sleep (history ++ [true])).2 = sleep
  ∧ last (sleeps (control_loop sleep (history ++ [true])).1) = Some sleep.
Proof.
  assert (∀ b, while_true sleep (history ++ [true]) b
               = ((while_true sleep history b).1
                    ++ [ScaleLoop true; Sleep sleep], sleep)) as H.
  { intros b. by rewrite while_true_app, while_true_scaled. }
  split; [apply H|]. unfold control_loop. rewrite H. split; [done|].
  cbn [fst]. unfold sleeps. rewrite omap_app. simpl. by rewrite last_snoc.
Qed.

(** ** Claims about startup and the life of the loop *)





(** At the default verbosity the logger is set to CRITICAL, so the ERROR
    record main submits before exiting is below the threshold of the logger;
    any [-v] lowers the threshold enough for it. *)
Lemma missing_credentials_record_and_verbosity (count : Z) :
  logging.isEnabledFor (configured_level count) logging.ERROR
  = bool_decide (1 ≤ count)%Z.
Proof.
  unfold configured_level.
  pose proof (verbose_option_range count) as Hr.
  destruct (logger_level_cases _ Hr) as [ [E ->] | [ [E ->] | [ [E ->] | [E ->] ] ] ];
    revert E; unfold verbose_option, IntRange_clamp;
    destruct (Z.ltb_spec count 0), (Z.ltb_spec 3 count); intros E;
    try lia; vm_compute logging.isEnabledFor;
    symmetry; first [apply bool_decide_eq_true_2 | apply bool_decide_eq_false_2];
    lia.
Qed.



(** ** Worked examples *)

Example split_commas : Str.split "," "a=1,b=2,,c" = ["a=1"; "b=2"; ""; "c"].
Proof. reflexivity. Qed.

Example split_of_empty_string : Str.split "," "" = [""].
Proof. reflexivity. Qed.

Example convert_repeated_key :
  MultimapParamType.convert "a=1,b=2,a=3" "--drainable-labels"
  = Ok {[ "a" := {[ "1"; "3" ]}; "b" := {[ "2" ]} ]}.
Proof. vm_compute. reflexivity. Qed.

Example convert_two_equals :
  MultimapParamType.convert "a=1=2" "--drainable-labels"
  = BadParameter "a=1=2 is not a key=value pair" "--drainable-labels".
Proof. reflexivity. Qed.

Example idle_idle_scaled_idle :
  control_loop 60 [false; false; true; false]
  = ([ScaleLoop false; Log logging.WARNING (BackoffIs 60); Sleep 120;
      ScaleLoop false; Log logging.WARNING (BackoffIs 120); Sleep 240;
      ScaleLoop true; Sleep 60;
      ScaleLoop false; Log logging.WARNING (BackoffIs 60); Sleep 120],
     120%Z).
Proof. reflexivity. Qed.

(** * Further properties of [main.py] *)

(** ** More on [str.split] *)

Section SplitMore.
Variable sep : ascii.

(** No part of a split contains the separator. *)
Lemma split_parts_no_sep (s : string) :
  Forall (λ e, Str.count_char sep e = 0) (Str.split sep s).
Proof.
  induction s as [|a s IH]; simpl.
  - by repeat constructor.
  - case_decide as Ha.
    + by constructor.
    + destruct (Str.split sep s) as [|w ws].
      * repeat constructor. simpl. by rewrite decide_False.
      * apply Forall_cons in IH as [Hw Hws]. constructor; [|done].
        simpl. by rewrite decide_False.
Qed.

(** Joining the parts of a split with the separator gives the text back. *)
Lemma concat_split (s : string) :
  String.concat (String sep "") (Str.split sep s) = s.
Proof.
  induction s as [|a s IH]; simpl; [done|].
  pose proof (split_not_nil sep s) as Hne.
  case_decide as Ha.
  - subst a. destruct (Str.split sep s) as [|w ws]; [done|].
    simpl in *. by rewrite IH.
  - destruct (Str.split sep s) as [|w ws]; [done|].
    destruct ws as [|x xs]; simpl in *; by rewrite <- IH.
Qed.

(** Splitting two texts joined by the separator gives the parts of the first
    followed by the parts of the second. *)
Lemma split_app (a b : string) :
  Str.split sep (a +:+ String sep b) = Str.split sep a ++ Str.split sep b.
Proof.
  induction a as [|c a IH]; simpl.
  - by rewrite decide_True.
  - case_decide; [by rewrite IH|].
    rewrite IH. pose proof (split_not_nil sep a) as Hne.
    by destruct (Str.split sep a).
Qed.
End SplitMore.

(** ** More on the multimap of [convert] *)

Section MultimapMore.
Import MultimapParamType.

Lemma key_value_not_empty k v : key_value k v ≠ "".
Proof. by destruct k. Qed.

Lemma count_char_key_value c k v :
  Str.count_char c (key_value k v)
  = Str.count_char c k + (if decide ("="%char = c) then 1 else 0)
    + Str.count_char c v.
Proof.
  unfold key_value. rewrite count_char_app.
  change ("=" +:+ v) with (String "="%char v). cbn [Str.count_char].
  case_decide; lia.
Qed.

(** A loop that returned went through entries with one equals sign each. *)
Lemma convert_loop_ok_inv value param entries :
  ∀ result m,
    convert_loop value param entries result = Ok m →
    Forall (λ e, Str.count_char "=" e = 1) entries.
Proof.
  induction entries as [|e entries IH]; intros result m Hm; [done|].
  simpl in Hm. pose proof (length_split "=" e) as Hlen.
  destruct (Str.split "=" e) as [|a [|b [|c l]]]; try done.
  constructor; [simpl in Hlen; lia | by eapply IH].
Qed.

(** A loop that raised did so with the message built from the whole
    [value], for the parameter it was called with. *)
Lemma convert_loop_error_inv value param entries :
  ∀ result message p,
    convert_loop value param entries result = BadParameter message p →
    message = value +:+ " is not a key=value pair" ∧ p = param.
Proof.
  induction entries as [|e entries IH]; intros result message p Hm; [done|].
  simpl in Hm.
  destruct (Str.split "=" e) as [|a [|b [|c l]]]; try by simplify_eq.
  by eapply IH.
Qed.

(** What a successful [convert] says about its input and its result. *)
Lemma convert_ok_inv value param m :
  convert value param = Ok m →
  (value = "" ∨ Forall well_formed_entry (Str.split "," value))
  ∧ (∀ k, is_Some (m !! k) ↔ ∃ v, key_value k v ∈ Str.split "," value)
  ∧ (∀ k v, holds m k v ↔ key_value k v ∈ Str.split "," value).
Proof.
  unfold convert. case_decide as Hv.
  - intros [= <-]. subst value. split; [by left|]. split.
    + intros k. rewrite lookup_empty. split; [by intros [? ?]|].
      intros [v Hin]. apply list_elem_of_singleton in Hin.
      by apply key_value_not_empty in Hin.
    + intros k v. split.
      * intros (vs & Hk & _). by rewrite lookup_empty in Hk.
      * intros Hin. apply list_elem_of_singleton in Hin.
        by apply key_value_not_empty in Hin.
  - intros Hm. pose proof (convert_loop_ok_inv _ _ _ _ _ Hm) as Heq.
    destruct (convert_loop_ok value param _ Heq ∅) as (m' & Hm' & Hdom & Hval).
    rewrite Hm in Hm'. injection Hm' as <-. split.
    + right. pose proof (split_parts_no_sep "," value) as Hcomma.
      apply Forall_forall. intros e He. split.
      * by eapply Forall_forall in Hcomma.
      * by eapply Forall_forall in Heq.
    + split.
      * intros k. rewrite Hdom, lookup_empty. split; [|by right].
        intros [[? ?]|?]; done.
      * intros k v. rewrite Hval. split; [|by right].
        intros [(? & Hk & _)|?]; [|done]. by rewrite lookup_empty in Hk.
Qed.

(** Multimaps without empty sets are equal when they pair the same keys
    with the same values. *)
Lemma multimap_ext (m1 m2 : gmap string (gset string)) :
  no_empty_set m1 → no_empty_set m2 →
  (∀ k v, holds m1 k v ↔ holds m2 k v) → m1 = m2.
Proof.
  intros H1 H2 Hh. apply map_eq. intros k.
  destruct (m1 !! k) as [vs1|] eqn:E1, (m2 !! k) as [vs2|] eqn:E2; [| | |done].
  - f_equal. apply set_eq. intros v. split; intros Hv.
    + destruct (proj1 (Hh k v)) as (ws & Hw & Hin); [by exists vs1|].
      by simplify_eq.
    + destruct (proj2 (Hh k v)) as (ws & Hw & Hin); [by exists vs2|].
      by simplify_eq.
  - destruct (set_choose_L vs1) as [v Hv]; [by eapply H1|].
    destruct (proj1 (Hh k v)) as (ws & Hw & _); [by exists vs1|].
    by simplify_eq.
  - destruct (set_choose_L vs2) as [v Hv]; [by eapply H2|].
    destruct (proj2 (Hh k v)) as (ws & Hw & _); [by exists vs2|].
    by simplify_eq.
Qed.

(** A map whose keys all come with a pair has no empty set. *)
Lemma no_empty_set_of_pairs (m : gmap string (gset string)) (P : string → Prop) :
  (∀ k, is_Some (m !! k) ↔ ∃ v, P (key_value k v)) →
  (∀ k v, holds m k v ↔ P (key_value k v)) →
  no_empty_set m.
Proof.
  intros Hdom Hval k vs Hk.
  destruct (proj1 (Hdom k)) as [v Hv]; [by eexists|].
  apply Hval in Hv as (ws & Hw & Hin). simplify_eq.
  intros ->. by apply not_elem_of_empty in Hin.
Qed.

Lemma holds_merge (m1 m2 : gmap string (gset string)) k v :
  holds (merge m1 m2) k v ↔ holds m1 k v ∨ holds m2 k v.
Proof.
  unfold holds, merge. rewrite lookup_union_with.
  destruct (m1 !! k) as [vs1|], (m2 !! k) as [vs2|]; simpl.
  - split.
    + intros (vs & [= <-] & Hv). apply elem_of_union in Hv as [?|?]; eauto.
    + intros [(vs & [= <-] & Hv)|(vs & [= <-] & Hv)];
        eexists; (split; [done|]); set_solver.
  - split; [by left | intros [?|(? & ? & ?)]; done].
  - split; [by right | intros [(? & ? & ?)|?]; done].
  - split; [intros (? & ? & ?); done | intros [(? & ? & ?)|(? & ? & ?)]; done].
Qed.

Lemma no_empty_set_merge (m1 m2 : gmap string (gset string)) :
  no_empty_set m1 → no_empty_set m2 → no_empty_set (merge m1 m2).
Proof.
  intros H1 H2 k vs. unfold merge. rewrite lookup_union_with.
  destruct (m1 !! k) as [vs1|] eqn:E1, (m2 !! k) as [vs2|] eqn:E2; simpl;
    intros Hk; simplify_eq.
  - specialize (H1 _ _ E1). set_solver.
  - by eapply H1.
  - by eapply H2.
Qed.
End MultimapMore.

(** X1. Whenever [convert] returns a map, the map pairs a key with a value
    exactly when the text [key=value] is one of the comma-separated parts of
    the input, and it has exactly the keys of those parts. *)
Theorem convert_result_is_the_input (value param : string)
    (m : gmap string (gset string)) :
  MultimapParamType.convert value param = Ok m →
  (∀ k, is_Some (m !! k) ↔ ∃ v, key_value k v ∈ Str.split "," value)
  ∧ (∀ k v, holds m k v ↔ key_value k v ∈ Str.split "," value).
Proof. intros Hm. by apply convert_ok_inv in Hm as (_ & ? & ?). Qed.

Lemma convert_result_is_the_input_witness :
  MultimapParamType.convert "a=1,b=,a=3" "p"
  = Ok {[ "a" := {[ "1"; "3" ]}; "b" := {[ "" ]} ]}
  ∧ (∀ k, is_Some (({[ "a" := {[ "1"; "3" ]}; "b" := {[ "" ]} ]}
                     : gmap string (gset string)) !! k)
          ↔ ∃ v, key_value k v ∈ Str.split "," "a=1,b=,a=3")
  ∧ (∀ k v, holds {[ "a" := {[ "1"; "3" ]}; "b" := {[ "" ]} ]} k v
            ↔ key_value k v ∈ Str.split "," "a=1,b=,a=3").
Proof.
  assert (MultimapParamType.convert "a=1,b=,a=3" "p"
          = Ok {[ "a" := {[ "1"; "3" ]}; "b" := {[ "" ]} ]}) as H
    by (vm_compute; reflexivity).
  split; [exact H|]. exact (convert_result_is_the_input _ _ _ H).
Defined.

(** X2. [convert] returns a map exactly for the empty string and for the
    inputs whose comma-separated parts all contain exactly one equals sign. *)
Theorem convert_succeeds_iff (value param : string) :
  succeeds (MultimapParamType.convert value param) = true
  ↔ value = ""
    ∨ Forall (λ e, Str.count_char "=" e = 1) (Str.split "," value).
Proof.
  split.
  - destruct (MultimapParamType.convert value param) as [m|] eqn:Hm; [|done].
    intros _. apply convert_ok_inv in Hm as ([->|Hwf] & _); [by left|].
    right. eapply Forall_impl; [done|]. by intros e [_ ?].
  - unfold MultimapParamType.convert. case_decide as Hv; [done|].
    intros [?|Heq]; [done|].
    by destruct (convert_loop_ok value param _ Heq ∅) as (m & -> & _).
Qed.

(** X3. When [convert] raises, the message quotes the whole option text,
    not the part that is malformed, and the exception is raised for the
    parameter [convert] was called with. *)
Theorem convert_error_quotes_whole_value (value param message p : string) :
  MultimapParamType.convert value param = BadParameter message p →
  message = value +:+ " is not a key=value pair" ∧ p = param ∧ value ≠ "".
Proof.
  unfold MultimapParamType.convert. case_decide as Hv; [done|].
  intros Hm. apply convert_loop_error_inv in Hm as [-> ->]. done.
Qed.

Lemma convert_error_quotes_whole_value_witness :
  MultimapParamType.convert "a=1,b,c=3" "--drainable-labels"
  = BadParameter "a=1,b,c=3 is not a key=value pair" "--drainable-labels"
  ∧ "a=1,b,c=3 is not a key=value pair"
    = "a=1,b,c=3" +:+ " is not a key=value pair"
  ∧ "--drainable-labels" = "--drainable-labels"
  ∧ "a=1,b,c=3" ≠ "".
Proof.
  assert (MultimapParamType.convert "a=1,b,c=3" "--drainable-labels"
          = BadParameter "a=1,b,c=3 is not a key=value pair"
              "--drainable-labels") as H by reflexivity.
  split; [exact H|]. exact (convert_error_quotes_whole_value _ _ _ _ H).
Defined.

(** X4. A map returned by [convert] has no key with an empty set of
    values, and none of its keys or values contains a comma or an equals
    sign. *)
Theorem convert_result_well_formed (value param : string)
    (m : gmap string (gset string)) :
  MultimapParamType.convert value param = Ok m →
  no_empty_set m
  ∧ ∀ k vs v, m !! k = Some vs → v ∈ vs →
      Str.count_char "," k = 0 ∧ Str.count_char "=" k = 0
      ∧ Str.count_char "," v = 0 ∧ Str.count_char "=" v = 0.
Proof.
  intros Hm. apply convert_ok_inv in Hm as (Hwf & Hdom & Hval). split.
  - by eapply (no_empty_set_of_pairs m (λ e, e ∈ Str.split "," value)).
  - intros k vs v Hk Hv.
    assert (key_value k v ∈ Str.split "," value) as Hin
      by (apply Hval; by exists vs).
    destruct Hwf as [->|Hwf].
    + apply list_elem_of_singleton in Hin.
      by apply key_value_not_empty in Hin.
    + eapply Forall_forall in Hwf as [Hc He]; [|done].
      rewrite count_char_key_value in Hc, He.
      rewrite decide_False in Hc by done. rewrite decide_True in He by done.
      lia.
Qed.

Lemma convert_result_well_formed_witness :
  MultimapParamType.convert "a=1,b=,a=3" "p"
  = Ok {[ "a" := {[ "1"; "3" ]}; "b" := {[ "" ]} ]}
  ∧ no_empty_set {[ "a" := {[ "1"; "3" ]}; "b" := {[ "" ]} ]}
  ∧ ∀ k vs v,
      ({[ "a" := {[ "1"; "3" ]}; "b" := {[ "" ]} ]}
        : gmap string (gset string)) !! k = Some vs →
      v ∈ vs →
      Str.count_char "," k = 0 ∧ Str.count_char "=" k = 0
      ∧ Str.count_char "," v = 0 ∧ Str.count_char "=" v = 0.
Proof.
  assert (MultimapParamType.convert "a=1,b=,a=3" "p"
          = Ok {[ "a" := {[ "1"; "3" ]}; "b" := {[ "" ]} ]}) as H
    by (vm_compute; reflexivity).
  split; [exact H|]. exact (convert_result_well_formed _ _ _ H).
Defined.

(** X5. The order of the entries and their repetition do not matter: two
    inputs with the same well-formed entries, in any order and any number of
    times, convert to the same map. *)
Theorem convert_ignores_order_and_repetition
    (param1 param2 : string) (entries1 entries2 : list string) :
  Forall well_formed_entry entries1 →
  (∀ e, e ∈ entries1 ↔ e ∈ entries2) →
  ∃ m,
    MultimapParamType.convert (String.concat "," entries1) param1 = Ok m
    ∧ MultimapParamType.convert (String.concat "," entries2) param2 = Ok m.
Proof.
  intros Hwf1 Hsame.
  assert (Forall well_formed_entry entries2) as Hwf2.
  { apply Forall_forall. intros e He. apply Hsame in He.
    by eapply Forall_forall in Hwf1. }
  destruct (convert_concat param1 entries1 Hwf1) as (m1 & Hm1 & Hdom1 & Hval1).
  destruct (convert_concat param2 entries2 Hwf2) as (m2 & Hm2 & Hdom2 & Hval2).
  exists m1. split; [done|]. rewrite Hm2. f_equal. apply multimap_ext.
  - by apply (no_empty_set_of_pairs m2 (λ e, e ∈ entries2)).
  - by apply (no_empty_set_of_pairs m1 (λ e, e ∈ entries1)).
  - intros k v. by rewrite Hval1, Hval2, Hsame.
Qed.

Lemma convert_ignores_order_and_repetition_witness :
  Forall well_formed_entry ["a=1"; "b=2"; "a=3"]
  ∧ (∀ e, e ∈ ["a=1"; "b=2"; "a=3"] ↔ e ∈ ["a=3"; "a=1"; "a=3"; "b=2"])
  ∧ ∃ m,
      MultimapParamType.convert
        (String.concat "," ["a=1"; "b=2"; "a=3"]) "p" = Ok m
      ∧ MultimapParamType.convert
          (String.concat "," ["a=3"; "a=1"; "a=3"; "b=2"]) "q" = Ok m.
Proof.
  assert (Forall well_formed_entry ["a=1"; "b=2"; "a=3"]) as H1
    by (repeat constructor).
  assert (∀ e, e ∈ ["a=1"; "b=2"; "a=3"] ↔ e ∈ ["a=3"; "a=1"; "a=3"; "b=2"])
    as H2 by (intros e; rewrite !elem_of_cons; tauto).
  split; [exact H1|]. split; [exact H2|].
  exact (convert_ignores_order_and_repetition "p" "q" _ _ H1 H2).
Defined.

(** X6. Joining two non-empty inputs with a comma merges their maps: when
    [convert] accepts [a] and [b], it accepts [a,b] and pairs each key with
    the values it has in either map. *)
Theorem convert_of_joined_inputs (param a b : string)
    (ma mb : gmap string (gset string)) :
  a ≠ "" → b ≠ "" →
  MultimapParamType.convert a param = Ok ma →
  MultimapParamType.convert b param = Ok mb →
  MultimapParamType.convert (a +:+ "," +:+ b) param = Ok (merge ma mb).
Proof.
  intros Ha Hb Hma Hmb.
  apply convert_ok_inv in Hma as ([?|Hwfa] & Hdoma & Hvala); [done|].
  apply convert_ok_inv in Hmb as ([?|Hwfb] & Hdomb & Hvalb); [done|].
  assert (Forall well_formed_entry (Str.split "," a ++ Str.split "," b))
    as Hwf by by apply Forall_app.
  destruct (convert_concat param _ Hwf) as (m & Hm & Hdom & Hval).
  change (a +:+ "," +:+ b) with (a +:+ String ","%char b).
  rewrite <- (split_app "," a b), (concat_split ",") in Hm.
  rewrite Hm. f_equal. apply multimap_ext.
  - by apply (no_empty_set_of_pairs m
                (λ e, e ∈ Str.split "," a ++ Str.split "," b)).
  - apply no_empty_set_merge.
    + by apply (no_empty_set_of_pairs ma (λ e, e ∈ Str.split "," a)).
    + by apply (no_empty_set_of_pairs mb (λ e, e ∈ Str.split "," b)).
  - intros k v. by rewrite Hval, holds_merge, Hvala, Hvalb, elem_of_app.
Qed.

Lemma convert_of_joined_inputs_witness :
  "x=1" ≠ "" ∧ "x=2,y=3" ≠ ""
  ∧ MultimapParamType.convert "x=1" "p" = Ok {[ "x" := {[ "1" ]} ]}
  ∧ MultimapParamType.convert "x=2,y=3" "p"
    = Ok {[ "x" := {[ "2" ]}; "y" := {[ "3" ]} ]}
  ∧ MultimapParamType.convert ("x=1" +:+ "," +:+ "x=2,y=3") "p"
    = Ok (merge {[ "x" := {[ "1" ]} ]}
            {[ "x" := {[ "2" ]}; "y" := {[ "3" ]} ]}).
Proof.
  assert ("x=1" ≠ "") as H1 by discriminate.
  assert ("x=2,y=3" ≠ "") as H2 by discriminate.
  assert (MultimapParamType.convert "x=1" "p" = Ok {[ "x" := {[ "1" ]} ]})
    as H3 by (vm_compute; reflexivity).
  assert (MultimapParamType.convert "x=2,y=3" "p"
          = Ok {[ "x" := {[ "2" ]}; "y" := {[ "3" ]} ]}) as H4
    by (vm_compute; reflexivity).
  split; [exact H1|]. split; [exact H2|]. split; [exact H3|].
  split; [exact H4|].
  exact (convert_of_joined_inputs "p" _ _ _ _ H1 H2 H3 H4).
Defined.

(** X7. An empty entry is rejected: an input that ends with a comma, or
    starts with one, makes [convert] raise. *)
Theorem convert_rejects_stray_comma (value param : string) :
  succeeds (MultimapParamType.convert (value +:+ ",") param) = false
  ∧ succeeds (MultimapParamType.convert ("," +:+ value) param) = false.
Proof.
  assert (Str.count_char "=" "" ≠ 1) as Hbad by done.
  split; unfold MultimapParamType.convert.
  - rewrite decide_False by by destruct value.
    change (value +:+ ",") with (value +:+ String ","%char "").
    rewrite (split_app "," value ""), convert_loop_fails; [done|].
    apply Exists_app. right. by constructor.
  - rewrite decide_False by done.
    change ("," +:+ value) with ("" +:+ String ","%char value).
    rewrite (split_app "," "" value), convert_loop_fails; [done|].
    by constructor.
Qed.

(** ** More on verbosity *)

(** X8. Within the range of the option every further [-v] selects a
    strictly more verbose (numerically smaller) level. *)
Theorem each_verbose_flag_lowers_the_level (count1 count2 : Z) :
  (0 ≤ count1)%Z → (count1 < count2)%Z → (count2 ≤ 3)%Z →
  (configured_level count2 < configured_level count1)%Z.
Proof.
  intros H0 Hlt H3. unfold configured_level.
  assert (verbose_option count1 = count1) as ->.
  { unfold verbose_option, IntRange_clamp.
    destruct (Z.ltb_spec count1 0), (Z.ltb_spec 3 count1); lia. }
  assert (verbose_option count2 = count2) as ->.
  { unfold verbose_option, IntRange_clamp.
    destruct (Z.ltb_spec count2 0), (Z.ltb_spec 3 count2); lia. }
  pose proof (logger_level_cases count1) as C1.
  pose proof (logger_level_cases count2) as C2.
  unfold logging.CRITICAL, logging.WARNING, logging.INFO, logging.DEBUG in *.
  lia.
Qed.

Lemma each_verbose_flag_lowers_the_level_witness :
  (0 ≤ 1)%Z ∧ (1 < 2)%Z ∧ (2 ≤ 3)%Z
  ∧ (configured_level 2 < configured_level 1)%Z.
Proof.
  assert (0 ≤ 1)%Z as H1 by lia.
  assert (1 < 2)%Z as H2 by lia.
  assert (2 ≤ 3)%Z as H3 by lia.
  split; [exact H1|]. split; [exact H2|]. split; [exact H3|].
  exact (each_verbose_flag_lowers_the_level 1 2 H1 H2 H3).
Defined.

(** X9. The clamp is what makes more than three [-v] flags mean DEBUG: the
    table alone sends every key it does not have to CRITICAL, while the
    clamped count of four or more flags selects DEBUG. *)
Theorem more_than_three_verbose_flags (count : Z) :
  (3 < count)%Z →
  logger_level count = logging.CRITICAL
  ∧ configured_level count = logging.DEBUG.
Proof.
  intros H3. split.
  - apply logger_level_default. by right.
  - unfold configured_level, verbose_option, IntRange_clamp.
    destruct (Z.ltb_spec count 0), (Z.ltb_spec 3 count); try lia. done.
Qed.

Lemma more_than_three_verbose_flags_witness :
  (3 < 7)%Z
  ∧ logger_level 7 = logging.CRITICAL
  ∧ configured_level 7 = logging.DEBUG.
Proof.
  assert (3 < 7)%Z as H by lia.
  split; [exact H|]. exact (more_than_three_verbose_flags 7 H).
Defined.

(** X10. The two records main itself logs, the ERROR about missing
    credentials and the WARNING about the backoff, pass the level main sets
    exactly when at least one [-v] is given; without [-v] the logger is at
    CRITICAL and handles neither. *)
Theorem records_of_main_need_a_verbose_flag (count : Z) :
  logging.isEnabledFor (configured_level count) logging.ERROR
  = bool_decide (1 ≤ count)%Z
  ∧ logging.isEnabledFor (configured_level count) logging.WARNING
    = bool_decide (1 ≤ count)%Z.
Proof.
  split; [apply missing_credentials_record_and_verbosity|].
  unfold configured_level.
  pose proof (verbose_option_range count) as Hr.
  pose proof (logger_level_cases _ Hr) as Hc. revert Hr Hc.
  unfold verbose_option, IntRange_clamp, logging.isEnabledFor.
  unfold logging.CRITICAL, logging.WARNING, logging.INFO, logging.DEBUG.
  destruct (Z.ltb_spec count 0), (Z.ltb_spec 3 count); intros Hr Hc;
    try lia; case_bool_decide; try lia;
    (apply Z.leb_le || apply Z.leb_gt); lia.
Qed.

(** ** More on the reconciliation loop *)

Section LoopMore.
Variable sleep : Z.

(** The loop on a first result and the results after it. *)
Lemma while_true_cons (scaled : bool) (results : list bool) (backoff : Z) :
  while_true sleep (scaled :: results) backoff
  = ((loop_body sleep scaled backoff).1
       ++ (while_true sleep results (loop_body sleep scaled backoff).2).1,
     (while_true sleep results (loop_body sleep scaled backoff).2).2).
Proof.
  simpl. destruct (loop_body sleep scaled backoff) as [events backoff1].
  simpl. by destruct (while_true sleep results backoff1).
Qed.

Lemma sleeps_app (trace1 trace2 : list event) :
  sleeps (trace1 ++ trace2) = sleeps trace1 ++ sleeps trace2.
Proof. apply omap_app. Qed.

(** A pass sleeps once, for the backoff it leaves. *)
Lemma sleeps_loop_body (scaled : bool) (backoff : Z) :
  sleeps (loop_body sleep scaled backoff).1
  = [(loop_body sleep scaled backoff).2].
Proof. by destruct scaled. Qed.

Lemma length_sleeps_while_true (results : list bool) (backoff : Z) :
  length (sleeps (while_true sleep results backoff).1) = length results.
Proof.
  revert backoff. induction results as [|scaled results IH]; intros backoff.
  - done.
  - rewrite while_true_cons. cbn [fst].
    rewrite sleeps_app, length_app, sleeps_loop_body, IH. done.
Qed.

Lemma backoff_warnings_while_true (results : list bool) (backoff : Z) :
  backoff_warnings (while_true sleep results backoff).1
  = unchanged_cycles results.
Proof.
  revert backoff. induction results as [|scaled results IH]; intros backoff.
  - done.
  - rewrite while_true_cons. cbn [fst].
    unfold backoff_warnings, unchanged_cycles in *.
    rewrite filter_app, length_app, IH. by destruct scaled.
Qed.

(** After at least one pass the last sleep is the current backoff. *)
Lemma last_sleep_while_true (results : list bool) (backoff : Z) :
  results ≠ [] →
  last (sleeps (while_true sleep results backoff).1)
  = Some (while_true sleep results backoff).2.
Proof.
  destruct results as [|scaled results _] using rev_ind; [done|]. intros _.
  rewrite while_true_app. cbn [fst snd].
  rewrite sleeps_app, while_true_cons. cbn [fst snd while_true].
  rewrite app_nil_r, sleeps_loop_body. by rewrite last_snoc.
Qed.

(** The backoff is the base interval doubled once per result equal to false
    since the last result equal to true. *)
Lemma backoff_while_true (results : list bool) (streak : nat) :
  (while_true sleep results (sleep * 2 ^ Z.of_nat streak)).2
  = (sleep * 2 ^ Z.of_nat (idle_streak results streak))%Z.
Proof.
  revert streak. induction results as [|scaled results IH]; intros streak.
  - done.
  - rewrite while_true_cons. cbn [snd]. destruct scaled; simpl loop_body.
    + cbn [snd idle_streak]. rewrite <- (IH 0).
      change (Z.of_nat 0) with 0%Z. by rewrite Z.pow_0_r, Z.mul_1_r.
    + cbn [snd idle_streak]. rewrite <- (IH (S streak)).
      replace (sleep * 2 ^ Z.of_nat (S streak))%Z
        with (sleep * 2 ^ Z.of_nat streak * 2)%Z; [done|].
      rewrite Nat2Z.inj_succ, Z.pow_succ_r by lia. lia.
Qed.

(** With a base interval that is not negative, the backoff and the sleeps
    never fall below the base interval. *)
Lemma sleeps_at_least (results : list bool) (backoff : Z) :
  (0 ≤ sleep)%Z → (sleep ≤ backoff)%Z →
  Forall (λ seconds, sleep ≤ seconds)%Z
    (sleeps (while_true sleep results backoff).1)
  ∧ (sleep ≤ (while_true sleep results backoff).2)%Z.
Proof.
  intros H0. revert backoff.
  induction results as [|scaled results IH]; intros backoff Hb.
  - split; [constructor | done].
  - rewrite while_true_cons. cbn [fst snd].
    rewrite sleeps_app, sleeps_loop_body.
    assert (sleep ≤ (loop_body sleep scaled backoff).2)%Z as Hb1
      by (destruct scaled; simpl; lia).
    destruct (IH _ Hb1) as [IH1 IH2]. split; [|done].
    apply Forall_app. split; [by repeat constructor | done].
Qed.

(** The sleeps of [N] passes in a row whose calls returned false add up to
    the backoff before them times [2 ^ (N + 1) - 2]. *)
Lemma total_sleep_idle (N : nat) (backoff : Z) :
  total_sleep (while_true sleep (replicate N false) backoff).1
  = (backoff * (2 ^ (Z.of_nat N + 1) - 2))%Z.
Proof.
  revert backoff. induction N as [|N IH]; intros backoff.
  - simpl. unfold total_sleep. simpl. lia.
  - change (replicate (S N) false) with (false :: replicate N false).
    rewrite while_true_cons. cbn [fst]. unfold total_sleep in *.
    rewrite sleeps_app, sleeps_loop_body, foldr_app. cbn [foldr].
    simpl loop_body. cbn [snd]. rewrite IH.
    rewrite Nat2Z.inj_succ.
    replace (Z.succ (Z.of_nat N) + 1)%Z with (Z.succ (Z.of_nat N + 1)) by lia.
    rewrite Z.pow_succ_r by lia. lia.
Qed.

(** A [backoff: ...] warning is followed at once by a sleep of twice the
    value it reports. *)
Lemma warning_then_sleep (results : list bool) (backoff : Z)
    (i : nat) (level reported : Z) :
  (while_true sleep results backoff).1 !! i
  = Some (Log level (BackoffIs reported)) →
  level = logging.WARNING
  ∧ (while_true sleep results backoff).1 !! S i
    = Some (Sleep (reported * 2)).
Proof.
  revert backoff i. induction results as [|scaled results IH];
    intros backoff i; [done|].
  rewrite while_true_cons. cbn [fst]. destruct scaled; simpl loop_body.
  - destruct i as [|[|i]]; [done|done|]. cbn [fst snd app lookup list_lookup].
    apply IH.
  - destruct i as [|[|[|i]]]; [done| |done|].
    + cbn. by intros [= <- <-].
    + cbn [fst snd app lookup list_lookup]. apply IH.
Qed.
End LoopMore.

(** X11. Every pass of the loop calls [cluster.scale_loop()] once and
    sleeps once, and logs one backoff warning exactly in the passes whose call
    returned false. *)
Theorem one_sleep_per_cycle (sleep : Z) (results : list bool) :
  scale_loop_calls (control_loop sleep results).1 = length results
  ∧ length (sleeps (control_loop sleep results).1) = length results
  ∧ backoff_warnings (control_loop sleep results).1
    = unchanged_cycles results.
Proof.
  unfold control_loop. split; [apply scale_loop_calls_while_true|].
  split; [apply length_sleeps_while_true | apply backoff_warnings_while_true].
Qed.

(** X12. After at least one pass, the duration of the last sleep is the
    value the backoff variable holds. *)
Theorem last_sleep_is_the_backoff (sleep : Z) (results : list bool) :
  results ≠ [] →
  last (sleeps (control_loop sleep results).1)
  = Some (control_loop sleep results).2.
Proof. apply last_sleep_while_true. Qed.

Lemma last_sleep_is_the_backoff_witness :
  [false; true; false; false] ≠ []
  ∧ last (sleeps (control_loop 60 [false; true; false; false]).1)
    = Some (control_loop 60 [false; true; false; false]).2.
Proof.
  assert ([false; true; false; false] ≠ []) as H by discriminate.
  split; [exact H|]. exact (last_sleep_is_the_backoff 60 _ H).
Defined.

(** X13. After any results the backoff is the base interval times two to
    the number of results equal to false since the last one equal to true. *)
Theorem backoff_closed_form (sleep : Z) (results : list bool) :
  (control_loop sleep results).2
  = (sleep * 2 ^ Z.of_nat (idle_streak results 0))%Z.
Proof.
  unfold control_loop. rewrite <- (backoff_while_true sleep results 0).
  change (Z.of_nat 0) with 0%Z. by rewrite Z.pow_0_r, Z.mul_1_r.
Qed.

(** X14. The sleep of each pass is determined by the results up to that
    pass: it is the base interval times two to the number of results equal to
    false that end with the result of that pass. *)
Theorem sleep_of_each_cycle
    (sleep : Z) (before : list bool) (scaled : bool) (after : list bool) :
  sleeps (control_loop sleep (before ++ scaled :: after)).1 !! length before
  = Some (sleep * 2 ^ Z.of_nat (idle_streak (before ++ [scaled]) 0))%Z.
Proof.
  unfold control_loop.
  change (scaled :: after) with ([scaled] ++ after).
  rewrite app_assoc, while_true_app. cbn [fst]. rewrite sleeps_app.
  pose proof (length_sleeps_while_true sleep (before ++ [scaled]) sleep) as Hlen.
  rewrite length_app in Hlen. simpl in Hlen.
  rewrite lookup_app_l by lia.
  replace (length before)
    with (pred (length (sleeps (while_true sleep (before ++ [scaled]) sleep).1)))
    by lia.
  rewrite <- last_lookup, last_sleep_while_true by by destruct before.
  f_equal. rewrite <- (backoff_while_true sleep (before ++ [scaled]) 0).
  change (Z.of_nat 0) with 0%Z. by rewrite Z.pow_0_r, Z.mul_1_r.
Qed.

(** X15. With a base interval that is not negative the loop never sleeps
    less than the base interval, and the backoff never falls below it. *)
Theorem sleeps_never_shorter_than_base (sleep : Z) (results : list bool) :
  (0 ≤ sleep)%Z →
  Forall (λ seconds, sleep ≤ seconds)%Z (sleeps (control_loop sleep results).1)
  ∧ (sleep ≤ (control_loop sleep results).2)%Z.
Proof. intros H0. by apply sleeps_at_least. Qed.

Lemma sleeps_never_shorter_than_base_witness :
  (0 ≤ 60)%Z
  ∧ Forall (λ seconds, 60 ≤ seconds)%Z
      (sleeps (control_loop 60 [false; true; false]).1)
  ∧ (60 ≤ (control_loop 60 [false; true; false]).2)%Z.
Proof.
  assert (0 ≤ 60)%Z as H by lia.
  split; [exact H|].
  exact (sleeps_never_shorter_than_base 60 [false; true; false] H).
Defined.

(** X16. With a base interval of zero the backoff never grows: every sleep
    of the loop is a sleep of zero seconds, whatever the results are. *)
Theorem zero_interval_never_waits (results : list bool) :
  Forall (λ seconds, seconds = 0%Z) (sleeps (control_loop 0 results).1)
  ∧ (control_loop 0 results).2 = 0%Z.
Proof.
  unfold control_loop. induction results as [|scaled results [IH1 IH2]].
  - split; [constructor | done].
  - rewrite while_true_cons. cbn [fst snd].
    rewrite sleeps_app, sleeps_loop_body.
    assert ((loop_body 0 scaled 0).2 = 0%Z) as -> by by destruct scaled.
    split; [|done]. apply Forall_app. split; [by repeat constructor | done].
Qed.



(** X18. [N] passes in a row from the start of the loop whose calls all
    returned false sleep [sleep * (2 ^ (N + 1) - 2)] seconds in total. *)
Theorem total_idle_time (sleep : Z) (N : nat) :
  total_sleep (control_loop sleep (replicate N false)).1
  = (sleep * (2 ^ (Z.of_nat N + 1) - 2))%Z.
Proof. apply total_sleep_idle. Qed.

(** X19. The backoff warning is written before the backoff is doubled:
    each such record is logged at WARNING and is followed at once by a sleep
    of twice the number of seconds it reports. *)
Theorem warning_reports_half_of_the_sleep
    (sleep : Z) (results : list bool) (i : nat) (level reported : Z) :
  (control_loop sleep results).1 !! i = Some (Log level (BackoffIs reported)) →
  level = logging.WARNING
  ∧ (control_loop sleep results).1 !! S i = Some (Sleep (reported * 2)).
Proof. apply warning_then_sleep. Qed.

Lemma warning_reports_half_of_the_sleep_witness :
  (control_loop 60 [true; false]).1 !! 3
  = Some (Log logging.WARNING (BackoffIs 60))
  ∧ logging.WARNING = logging.WARNING
  ∧ (control_loop 60 [true; false]).1 !! 4 = Some (Sleep (60 * 2)).
Proof.
  assert ((control_loop 60 [true; false]).1 !! 3
          = Some (Log logging.WARNING (BackoffIs 60))) as H by reflexivity.
  split; [exact H|].
  exact (warning_reports_half_of_the_sleep 60 [true; false] 3 _ 60 H).
Defined.

(** ** The Cluster main constructs *)

Lemma truthy_true_present (o : option string) : truthy o = true → present o.
Proof.
  destruct o as [s|]; [|done]. simpl. case_decide; [done|].
  intros _. by exists s.
Qed.

(** X20. The regions handed to the Cluster are the comma-separated parts
    of [--regions]: there is always at least one (the empty string for an
    empty option), one more than the option has commas, none contains a
    comma, and joined by commas they give the option back. *)
Theorem cluster_regions (args : Args) :
  kw_regions (cluster_kwargs args) ≠ []
  ∧ length (kw_regions (cluster_kwargs args))
    = S (Str.count_char "," (regions args))
  ∧ Forall (λ region, Str.count_char "," region = 0)
      (kw_regions (cluster_kwargs args))
  ∧ String.concat "," (kw_regions (cluster_kwargs args)) = regions args.
Proof.
  simpl. split; [apply split_not_nil|]. split; [apply length_split|].
  split; [apply split_parts_no_sep | apply (concat_split ",")].
Qed.

(** X21. The Cluster is only ever constructed with both credentials
    non-empty. *)
Theorem cluster_gets_both_credentials (args : Args) (results : list bool) :
  ClusterCreated ∈ (main args results).1 →
  present (kw_aws_access_key (cluster_kwargs args))
  ∧ present (kw_aws_secret_key (cluster_kwargs args)).
Proof.
  unfold main. simpl.
  destruct (truthy (aws_secret_key args)) eqn:Hs,
    (truthy (aws_access_key args)) eqn:Ha; simpl.
  - intros _. split; by apply truthy_true_present.
  - intros Hin. repeat (apply elem_of_cons in Hin as [?|Hin]; [done|]).
    by apply elem_of_nil in Hin.
  - intros Hin. repeat (apply elem_of_cons in Hin as [?|Hin]; [done|]).
    by apply elem_of_nil in Hin.
  - intros Hin. repeat (apply elem_of_cons in Hin as [?|Hin]; [done|]).
    by apply elem_of_nil in Hin.
Qed.

Lemma cluster_gets_both_credentials_witness :
  let args :=
    {| cluster_name := Some "prod"; regions := "us-west-1,us-east-1";
       sleep := 60; kubeconfig := None; pod_namespace := None;
       aws_access_key := Some "AKIA"; aws_secret_key := Some "secret";
       datadog_api_key := None; idle_threshold := 3600;
       type_idle_threshold := 604800; over_provision := 5;
       instance_init_time := 1500; no_scale := false;
       no_maintenance := false; slack_hook := None; slack_bot_token := None;
       dry_run := false; verbose := 1; drainable_labels := ∅;
       scale_label := None; instance_type_priorities := ∅ |} in
  ClusterCreated ∈ (main args [false]).1
  ∧ present (kw_aws_access_key (cluster_kwargs args))
  ∧ present (kw_aws_secret_key (cluster_kwargs args)).
Proof.
  intros args.
  assert (ClusterCreated ∈ (main args [false]).1) as H.
  { vm_compute. do 3 (apply elem_of_cons; right). apply elem_of_cons.
    left. reflexivity. }
  split; [exact H|]. exact (cluster_gets_both_credentials args [false] H).
Defined.
